(** * The API error envelope of [src/types/index.ts]

    The only runtime code of the shared type module is the guard
    [isApiError] and the constructor [createApiError].  Both work on
    untyped JavaScript values, so the development starts from a small
    model of those values and of the language operations the two
    functions are written with ([typeof], truthiness, [&&], [||],
    property reads, [Array.isArray], [Array.prototype.every], object
    spread), and then transcribes the two functions on top of it.

    Two domains.  [value] is plain data: primitives, opaque function
    values, objects given by their own enumerable data properties
    (what an object literal or [JSON.parse] gives), and arrays given
    by their (possibly sparse) elements.  On plain data a read and
    the spread see the same properties and nothing runs on a read.
    [Runtime.input] adds the arguments for which that is not so:
    instances with non-enumerable or inherited properties, accessor
    properties whose getter may throw, functions carrying
    properties.  What holds of plain data is stated on [value]; what
    depends on the difference is stated on [Runtime.input], where
    both functions are transcribed again. *)

From Stdlib Require Import String Ascii Decimal DecimalString DecimalNat ZArith List Bool.
From Stdlib Require Import Floats.SpecFloat.
From stdpp Require Import gmap strings list fin_maps.

Set Warnings "-register-all".
Open Scope string_scope.

(** ** Values *)

(** A JavaScript number is an IEEE 754 binary64; [spec_float] is its
    mathematical description (zeros, infinities, NaN, finite values).
    A string is a sequence of code units, of which [string] has the
    ones below 256. *)
Definition number : Type := spec_float.

Inductive value : Type :=
| VUndefined
| VNull
| VBoolean (b : bool)
| VNumber (x : number)
| VBigInt (z : Z)
| VString (s : string)
| VSymbol (id : positive)
| VFunction (id : positive)
| VObject (ps : gmap string value)
| VArray (es : list (option value)).

(** [typeof v], with the operator's own result strings. *)
Definition typeof (v : value) : string :=
  match v with
  | VUndefined => "undefined"
  | VNull => "object"
  | VBoolean _ => "boolean"
  | VNumber _ => "number"
  | VBigInt _ => "bigint"
  | VString _ => "string"
  | VSymbol _ => "symbol"
  | VFunction _ => "function"
  | VObject _ => "object"
  | VArray _ => "object"
  end.

(** Truthiness: what [!v], [&&], [||] and [every] test. *)
Definition ToBoolean (v : value) : bool :=
  match v with
  | VUndefined | VNull => false
  | VBoolean b => b
  | VNumber (S754_zero _) | VNumber S754_nan => false
  | VNumber _ => true
  | VBigInt z => negb (Z.eqb z 0)
  | VString s => negb (String.eqb s "")
  | VSymbol _ | VFunction _ | VObject _ | VArray _ => true
  end.

(** [v === undefined]. *)
Definition IsUndefined (v : value) : bool :=
  match v with VUndefined => true | _ => false end.

(** [Array.isArray(v)]. *)
Definition IsArray (v : value) : bool :=
  match v with VArray _ => true | _ => false end.

(** ** Completions

    An evaluation either yields a result or ends abruptly: by a
    [TypeError] raised by the language (a property read on [undefined]
    or [null], a call of something that is not callable), or by
    control reaching a function value supplied from outside
    ([UserCode]), whose body the model does not describe. *)

Inductive abrupt : Type := TypeError | UserCode.

Inductive completion (A : Type) : Type :=
| Normal (a : A)
| Abrupt (r : abrupt).
Arguments Normal {A} a.
Arguments Abrupt {A} r.

#[global] Instance completion_ret : MRet completion := @Normal.
#[global] Instance completion_bind : MBind completion :=
  λ A B f c, match c with Normal a => f a | Abrupt r => Abrupt r end.

(** [a && b] and [a || b]: the right operand is evaluated only when
    the left one does not decide, and the result is an operand's
    value, not its truthiness. *)
Definition js_and (a b : completion value) : completion value :=
  v ← a; if ToBoolean v then b else Normal v.
Definition js_or (a b : completion value) : completion value :=
  v ← a; if ToBoolean v then Normal v else b.
Infix "&&&" := js_and (at level 40, left associativity).
Infix "|||" := js_or (at level 50, left associativity).

(** [typeof e === t] and [e === undefined] for an expression [e]. *)
Definition typeof_is (e : completion value) (t : string) : completion value :=
  v ← e; Normal (VBoolean (String.eqb (typeof v) t)).
Definition is_undefined (e : completion value) : completion value :=
  v ← e; Normal (VBoolean (IsUndefined v)).
Definition is_array (e : completion value) : completion value :=
  v ← e; Normal (VBoolean (IsArray v)).

(** ** Property keys of arrays and strings *)

(** An array index as a property key, and back: a key is an index
    when it is the canonical decimal numeral of a natural number. *)
Definition key_of_index (n : nat) : string :=
  NilEmpty.string_of_uint (Nat.to_uint n).

Definition index_of_key (k : string) : option nat :=
  match NilEmpty.uint_of_string k with
  | Some d =>
      if String.eqb (key_of_index (Nat.of_uint d)) k then Some (Nat.of_uint d) else None
  | None => None
  end.

Definition number_of_nat (n : nat) : number :=
  binary_normalize 53 1024 (Z.of_nat n) 0 false.

Definition array_get (es : list (option value)) (k : string) : value :=
  if String.eqb k "length" then VNumber (number_of_nat (length es))
  else match index_of_key k with
       | Some n => match es !! n with Some (Some v) => v | _ => VUndefined end
       | None => VUndefined
       end.

Definition string_get (s : string) (k : string) : value :=
  if String.eqb k "length" then VNumber (number_of_nat (String.length s))
  else match index_of_key k with
       | Some n => match String.get n s with
                   | Some c => VString (String c EmptyString)
                   | None => VUndefined
                   end
       | None => VUndefined
       end.

(** ** Property reads

    [Get o k] is the read [o.k] of a data property.  On [undefined]
    and [null] it raises a TypeError.  No name read by this module
    ([code], [message], [details], [fieldErrors], [correlationId],
    [field]) is defined by a built-in prototype, so a read is decided
    by the own properties of the value. *)
Definition Get (o : value) (k : string) : completion value :=
  match o with
  | VUndefined | VNull => Abrupt TypeError
  | VObject ps => Normal (default VUndefined (ps !! k))
  | VArray es => Normal (array_get es k)
  | VString s => Normal (string_get s k)
  | VBoolean _ | VNumber _ | VBigInt _ | VSymbol _ | VFunction _ => Normal VUndefined
  end.

(** ** [Array.prototype.every]

    The elements are visited in index order, holes are skipped, the
    callback's result is tested for truthiness and the first falsy
    one ends the traversal. *)
Fixpoint every (cb : value → completion value) (es : list (option value))
  : completion value :=
  match es with
  | [] => Normal (VBoolean true)
  | None :: es' => every cb es'
  | Some x :: es' =>
      r ← cb x;
      if ToBoolean r then every cb es' else Normal (VBoolean false)
  end.

(** The method call [this.every(cb)].  On an array the method is the
    built-in one.  On anything else the callee is whatever the read
    of [every] gives: a supplied function takes control, and any
    other value is not callable. *)
Definition Invoke_every (this : value) (cb : value → completion value)
  : completion value :=
  match this with
  | VArray es => every cb es
  | _ =>
      m ← Get this "every";
      match m with
      | VFunction _ => Abrupt UserCode
      | _ => Abrupt TypeError
      end
  end.

(** ** Object spread

    [{ ...src }] copies the own enumerable data properties of [src]:
    the entries of an object, the present elements of an array under
    their index keys, the characters of a string; nothing for the
    other values, [undefined] and [null] included. *)
Definition array_entries (es : list (option value)) : list (string * value) :=
  omap id (imap (λ i o, pair (key_of_index i) <$> o) es).

Definition string_entries (s : string) : list (string * value) :=
  imap (λ i c, (key_of_index i, VString (String c EmptyString)))
       (list_ascii_of_string s).

Definition own_enumerable (v : value) : gmap string value :=
  match v with
  | VObject ps => ps
  | VArray es => list_to_map (array_entries es)
  | VString s => list_to_map (string_entries s)
  | _ => ∅
  end.

(** Spreading [src] into an object literal whose properties so far
    are [target]: copied properties replace those already there. *)
Definition spread (src : value) (target : gmap string value) : gmap string value :=
  own_enumerable src ∪ target.

(** ** Data model *)

(** [ApiErrorCode]: the ten string literals of the union type. *)
Inductive ApiErrorCode : Type :=
| BAD_REQUEST | UNAUTHORIZED | FORBIDDEN | NOT_FOUND | CONFLICT
| RATE_LIMITED | VALIDATION_ERROR | INTERNAL_ERROR | SERVICE_UNAVAILABLE | TIMEOUT.

Definition ApiErrorCode_tag (c : ApiErrorCode) : string :=
  match c with
  | BAD_REQUEST => "BAD_REQUEST"
  | UNAUTHORIZED => "UNAUTHORIZED"
  | FORBIDDEN => "FORBIDDEN"
  | NOT_FOUND => "NOT_FOUND"
  | CONFLICT => "CONFLICT"
  | RATE_LIMITED => "RATE_LIMITED"
  | VALIDATION_ERROR => "VALIDATION_ERROR"
  | INTERNAL_ERROR => "INTERNAL_ERROR"
  | SERVICE_UNAVAILABLE => "SERVICE_UNAVAILABLE"
  | TIMEOUT => "TIMEOUT"
  end.

Definition ApiErrorCodes : list ApiErrorCode :=
  [BAD_REQUEST; UNAUTHORIZED; FORBIDDEN; NOT_FOUND; CONFLICT;
   RATE_LIMITED; VALIDATION_ERROR; INTERNAL_ERROR; SERVICE_UNAVAILABLE; TIMEOUT].

(** Does a string name one of the ten error kinds? *)
Definition is_ApiErrorCode (s : string) : bool :=
  existsb (λ c, String.eqb (ApiErrorCode_tag c) s) ApiErrorCodes.

(** The optional fields of [ApiError]. *)
Definition optional_fields : list string := ["details"; "fieldErrors"; "correlationId"].

(** ** The guard and the constructor *)

(** The callback of [every] in [isApiError]:
    [f && typeof f === 'object' && typeof f.field === 'string'
       && typeof f.message === 'string']. *)
Definition fieldError_guard (f : value) : completion value :=
  Normal f
  &&& typeof_is (Normal f) "object"
  &&& typeof_is (Get f "field") "string"
  &&& typeof_is (Get f "message") "string".

(** [isApiError(input)]. *)
Definition isApiError (input : value) : completion value :=
  if negb (ToBoolean input) || negb (String.eqb (typeof input) "object")
  then Normal (VBoolean false)
  else
    let i := input in
    typeof_is (Get i "code") "string"
    &&& typeof_is (Get i "message") "string"
    &&& (is_undefined (Get i "details") ||| typeof_is (Get i "details") "object")
    &&& (is_undefined (Get i "fieldErrors")
         ||| (is_array (Get i "fieldErrors")
              &&& (fe ← Get i "fieldErrors"; Invoke_every fe fieldError_guard)))
    &&& (is_undefined (Get i "correlationId")
         ||| typeof_is (Get i "correlationId") "string").

(** [createApiError(partial)]: the object literal
    [{ details: undefined, fieldErrors: undefined,
       correlationId: undefined, ...partial }]. *)
Definition createApiError (partial : value) : completion value :=
  let o : gmap string value := ∅ in
  let o := <["details" := VUndefined]> o in
  let o := <["fieldErrors" := VUndefined]> o in
  let o := <["correlationId" := VUndefined]> o in
  let o := spread partial o in
  Normal (VObject o).

(** ** The envelope shape, as the specification words it *)

(** The value has a string-valued field [k]. *)
Definition has_string (v : value) (k : string) : Prop :=
  ∃ s, Get v k = Normal (VString s).

(** The field [k] of the value is present and holds [x].  A field
    that holds [undefined] counts as absent: [undefined] is the
    sentinel the constructor itself writes for a field not supplied. *)
Definition present (v : value) (k : string) (x : value) : Prop :=
  Get v k = Normal x ∧ x ≠ VUndefined.

(** An element of [fieldErrors]: a string [field] and a string [message]. *)
Definition FieldError_shape (f : value) : Prop :=
  has_string f "field" ∧ has_string f "message".

(** The optional fields: each one, when present, has its shape. *)
Definition details_ok (v : value) : Prop :=
  ∀ d, present v "details" d → typeof d = "object".

Definition fieldErrors_ok (v : value) : Prop :=
  ∀ fe, present v "fieldErrors" fe →
    ∃ es, fe = VArray es ∧ ∀ f, Some f ∈ es → FieldError_shape f.

Definition correlationId_ok (v : value) : Prop :=
  ∀ c, present v "correlationId" c → ∃ s, c = VString s.

(** The ApiError shape: a string [code], a string [message], and, for
    each optional field that is present, [details] object-typed,
    [fieldErrors] a sequence of field errors, [correlationId] a string. *)
Definition ApiError_shape (v : value) : Prop :=
  has_string v "code"
  ∧ has_string v "message"
  ∧ details_ok v
  ∧ fieldErrors_ok v
  ∧ correlationId_ok v.

(** [Record<string, unknown>], the declared type of [details]. *)
Definition is_Record (v : value) : Prop := ∃ ps, v = VObject ps.

(** The invariant of the data model: [code] is one of the ten error
    kinds and [message] is a string. *)
Definition ApiError_invariant (v : value) : Prop :=
  (∃ c : ApiErrorCode, Get v "code" = Normal (VString (ApiErrorCode_tag c)))
  ∧ has_string v "message".

(** ** The declared types

    The interfaces [FieldError] and [ApiError], and the object that a
    value of each is at run time: one property per field, and no
    property for an optional field that is left out. *)

(** The five fields of [ApiError], the ones [isApiError] reads. *)
Definition ApiError_fields : list string :=
  ["code"; "message"; "details"; "fieldErrors"; "correlationId"].

(** Defines the property [k] when the optional field has a value. *)
Definition set_optional (k : string) (o : option value) (ps : gmap string value)
  : gmap string value :=
  match o with
  | Some v => <[k := v]> ps
  | None => ps
  end.

Module FieldError.

Record t : Type := {
  field : string;
  message : string;
  code : option string;
}.

Definition to_value (f : t) : value :=
  VObject (set_optional "code" (VString <$> code f)
             (<["message" := VString (message f)]>
                (<["field" := VString (field f)]> ∅))).

End FieldError.

Module ApiError.

Record t : Type := {
  code : ApiErrorCode;
  message : string;
  details : option (gmap string value);
  fieldErrors : option (list FieldError.t);
  correlationId : option string;
}.

Definition to_value (e : t) : value :=
  VObject
    (set_optional "correlationId" (VString <$> correlationId e)
       (set_optional "fieldErrors"
          ((λ l, VArray ((λ f, Some (FieldError.to_value f)) <$> l)) <$> fieldErrors e)
          (set_optional "details" (VObject <$> details e)
             (<["message" := VString (message e)]>
                (<["code" := VString (ApiErrorCode_tag (code e))]> ∅))))).

End ApiError.

(** The present elements of an array satisfy [P]. *)
Definition elements_all (P : value → Prop) (es : list (option value)) : Prop :=
  ∀ f, Some f ∈ es → P f.

(** ** Arguments as the engine holds them

    The values above are plain data: every property of an object is
    an own enumerable data property, so a read and the spread see the
    same thing.  An argument can be more than that.  A class instance
    (an [Error] with a [code], say) has properties that a read sees
    and the spread does not copy, because they are not enumerable or
    are inherited from the prototype; a property can be an accessor,
    whose getter runs on every read and may throw (the traps of a
    proxy behave alike); and a function can carry properties.

    [Runtime.input] adds these arguments to the plain ones, and
    [Runtime.isApiError] and [Runtime.createApiError] are the two
    functions on them.  The values held by the properties of an
    instance are plain: below the argument itself the two functions
    only read, and a read is decided by what it returns. *)

Module Runtime.

(** A property slot: a data property with its value, or an accessor
    with what its getter answers, [None] when the getter throws.
    A getter is taken to answer every read alike. *)
Inductive property : Type :=
| Data (v : value)
| Accessor (get : option value).

Record descriptor : Type := {
  slot : property;
  enumerable : bool;
}.

(** An argument: a plain value, or an instance with its own
    properties, the properties it inherits, and whether it is
    callable. *)
Inductive input : Type :=
| Plain (v : value)
| Instance (callable : bool) (own : gmap string descriptor)
           (inherited : gmap string property).

Definition typeof (i : input) : string :=
  match i with
  | Plain v => typeof v
  | Instance callable _ _ => if callable then "function" else "object"
  end.

Definition ToBoolean (i : input) : bool :=
  match i with
  | Plain v => ToBoolean v
  | Instance _ _ _ => true
  end.

(** What a read of the slot gives, when it gives something. *)
Definition readable (p : property) : option value :=
  match p with
  | Data v => Some v
  | Accessor get => get
  end.

(** The read of a slot: a getter that throws ends the evaluation. *)
Definition read (p : property) : completion value :=
  match readable p with
  | Some v => Normal v
  | None => Abrupt UserCode
  end.

(** [i.k]: the own property, else the inherited one, else [undefined]. *)
Definition Get (i : input) (k : string) : completion value :=
  match i with
  | Plain v => Get v k
  | Instance _ own inherited =>
      match own !! k with
      | Some d => read (slot d)
      | None =>
          match inherited !! k with
          | Some p => read p
          | None => Normal VUndefined
          end
      end
  end.

(** The slots the spread visits: the own enumerable ones. *)
Definition enumerable_slots (own : gmap string descriptor) : gmap string property :=
  omap (λ d, if enumerable d then Some (slot d) else None) own.

(** What [{ ...i }] copies: the value read from each own enumerable
    property.  One getter that throws ends the copy. *)
Definition own_enumerable (i : input) : completion (gmap string value) :=
  match i with
  | Plain v => Normal (own_enumerable v)
  | Instance _ own _ =>
      let slots := enumerable_slots own in
      if bool_decide (map_Forall (λ _ p, is_Some (readable p)) slots)
      then Normal (omap readable slots)
      else Abrupt UserCode
  end.

(** [isApiError(input)]. *)
Definition isApiError (input : input) : completion value :=
  if negb (ToBoolean input) || negb (String.eqb (typeof input) "object")
  then Normal (VBoolean false)
  else
    let i := input in
    typeof_is (Get i "code") "string"
    &&& typeof_is (Get i "message") "string"
    &&& (is_undefined (Get i "details") ||| typeof_is (Get i "details") "object")
    &&& (is_undefined (Get i "fieldErrors")
         ||| (is_array (Get i "fieldErrors")
              &&& (fe ← Get i "fieldErrors"; Invoke_every fe fieldError_guard)))
    &&& (is_undefined (Get i "correlationId")
         ||| typeof_is (Get i "correlationId") "string").

(** [createApiError(partial)]. *)
Definition createApiError (partial : input) : completion value :=
  let o : gmap string value := ∅ in
  let o := <["details" := VUndefined]> o in
  let o := <["fieldErrors" := VUndefined]> o in
  let o := <["correlationId" := VUndefined]> o in
  copied ← own_enumerable partial;
  let o := copied ∪ o in
  Normal (VObject o).

(** Every property of the argument is a data property. *)
Definition is_data (p : property) : bool :=
  match p with
  | Data _ => true
  | Accessor _ => false
  end.

Definition data_only (i : input) : Prop :=
  match i with
  | Plain _ => True
  | Instance _ own inherited =>
      map_Forall (λ _ d, is_data (slot d) = true) own
      ∧ map_Forall (λ _ p, is_data p = true) inherited
  end.

(** What the reads of an argument show, as a plain value: for an
    instance the own properties over the inherited ones, a callable
    instance showing as a function. *)
Definition view (i : input) : value :=
  match i with
  | Plain v => v
  | Instance true _ _ => VFunction 1
  | Instance false own inherited =>
      VObject (omap (λ d, readable (slot d)) own ∪ omap readable inherited)
  end.

End Runtime.

(** ** Sample values *)

Definition obj (l : list (string * value)) : value := VObject (list_to_map l).
Definition arr (l : list value) : value := VArray (Some <$> l).

Definition five : number := number_of_nat 5.

(** [{code: 'NOT_FOUND', message: 'x'}] *)
Definition not_found_partial : value :=
  obj [("code", VString "NOT_FOUND"); ("message", VString "x")].

(** [{code: 'VALIDATION_ERROR', message: 'bad',
      fieldErrors: [{field: 'email', message: 'invalid'}]}] *)
Definition validation_partial : value :=
  obj [("code", VString "VALIDATION_ERROR"); ("message", VString "bad");
       ("fieldErrors",
        arr [obj [("field", VString "email"); ("message", VString "invalid")]])].

(** [{code: 'WEIRD', message: 'x'}] *)
Definition weird : value :=
  obj [("code", VString "WEIRD"); ("message", VString "x")].


(** [{code: 'NOT_FOUND', message: 'x', details: null}] *)
Definition null_details : value :=
  obj [("code", VString "NOT_FOUND"); ("message", VString "x"); ("details", VNull)].



(** A class instance in the manner of [Error]: [code] assigned by
    the constructor, [message] own and not enumerable, [name]
    inherited. *)
Definition error_with_code : Runtime.input :=
  Runtime.Instance false
    (list_to_map
       [("code", {| Runtime.slot := Runtime.Data (VString "NOT_FOUND");
                    Runtime.enumerable := true |});
        ("message", {| Runtime.slot := Runtime.Data (VString "boom");
                       Runtime.enumerable := false |})])
    (list_to_map [("name", Runtime.Data (VString "Error"))]).

(** [{ get code() { throw ... }, message: 'x' }] *)
Definition throwing_code : Runtime.input :=
  Runtime.Instance false
    (list_to_map
       [("code", {| Runtime.slot := Runtime.Accessor None;
                    Runtime.enumerable := true |});
        ("message", {| Runtime.slot := Runtime.Data (VString "x");
                       Runtime.enumerable := true |})])
    ∅.

(** Closes [details_ok], [fieldErrors_ok] or [correlationId_ok] on a
    concrete object whose field reads as [undefined]. *)
Ltac field_absent :=
  let H := fresh "H" in
  let Hd := fresh "Hd" in
  intros ? [H Hd]; vm_compute in H; injection H as <-; by destruct Hd.

Example isApiError_minimal :
  isApiError (obj [("code", VString "NOT_FOUND"); ("message", VString "x")])
  = Normal (VBoolean true).
Proof. vm_compute. reflexivity. Qed.

Example isApiError_null : isApiError VNull = Normal (VBoolean false).
Proof. reflexivity. Qed.

Example isApiError_bad_element :
  isApiError (obj [("code", VString "VALIDATION_ERROR"); ("message", VString "bad");
                   ("fieldErrors", arr [obj [("field", VString "email")]; VNull])])
  = Normal (VBoolean false).
Proof. vm_compute. reflexivity. Qed.

Example createApiError_minimal :
  createApiError (obj [("code", VString "NOT_FOUND"); ("message", VString "x")])
  = Normal (obj [("code", VString "NOT_FOUND"); ("message", VString "x");
                 ("details", VUndefined); ("fieldErrors", VUndefined);
                 ("correlationId", VUndefined)]).
Proof. vm_compute. reflexivity. Qed.

(** What the guards of [isApiError] protect: a read on [null] and a
    call of [every] on a value that is no array end in a TypeError. *)
Example unguarded_operations_raise :
  Get VNull "code" = Abrupt TypeError
  ∧ Invoke_every (VString "abc") fieldError_guard = Abrupt TypeError
  ∧ Invoke_every VUndefined fieldError_guard = Abrupt TypeError.
Proof. vm_compute. auto. Qed.

(** Holes of a sparse [fieldErrors] array are skipped. *)
Example isApiError_sparse_fieldErrors :
  isApiError (obj [("code", VString "VALIDATION_ERROR"); ("message", VString "bad");
                   ("fieldErrors",
                    VArray [None; Some (obj [("field", VString "email");
                                             ("message", VString "invalid")])])])
  = Normal (VBoolean true).
Proof. vm_compute. reflexivity. Qed.

Example index_key_examples :
  index_of_key "12" = Some 12 ∧ index_of_key "012" = None ∧
  index_of_key "" = None ∧ index_of_key "code" = None ∧ key_of_index 0 = "0".
Proof. vm_compute. auto. Qed.

(** ** The operators on decided operands *)

Lemma js_and_boolean (b : bool) (e : completion value) :
  Normal (VBoolean b) &&& e = if b then e else Normal (VBoolean false).
Proof. by destruct b. Qed.

Lemma typeof_is_Normal (v : value) (t : string) :
  typeof_is (Normal v) t = Normal (VBoolean (String.eqb (typeof v) t)).
Proof. reflexivity. Qed.

Lemma typeof_string (v : value) :
  String.eqb (typeof v) "string" = true ↔ ∃ s, v = VString s.
Proof.
  split.
  - destruct v; simpl; try discriminate. eauto.
  - by intros [s ->].
Qed.

Lemma typeof_object (v : value) :
  String.eqb (typeof v) "object" = true ↔ typeof v = "object".
Proof. apply String.eqb_eq. Qed.

Lemma IsUndefined_true (v : value) : IsUndefined v = true ↔ v = VUndefined.
Proof. destruct v; simpl; split; congruence. Qed.

Lemma IsUndefined_false (v : value) : IsUndefined v = false ↔ v ≠ VUndefined.
Proof. destruct v; simpl; split; congruence. Qed.

(** ** Reads *)

Lemma Get_object (ps : gmap string value) (k : string) :
  Get (VObject ps) k = Normal (default VUndefined (ps !! k)).
Proof. reflexivity. Qed.

(** Only an object has a string under one of the names the guard reads. *)
Lemma has_string_object (v : value) (k : string) :
  String.eqb k "length" = false → index_of_key k = None →
  has_string v k → ∃ ps s, v = VObject ps ∧ ps !! k = Some (VString s).
Proof.
  intros Hl Hi [s H]. destruct v; simpl in H; try discriminate.
  - unfold string_get in H. rewrite Hl, Hi in H. discriminate.
  - exists ps, s. split; [done|].
    destruct (ps !! k) as [x|]; simpl in H; [|discriminate]. congruence.
  - unfold array_get in H. rewrite Hl, Hi in H. discriminate.
Qed.

(** Index keys and indices correspond. *)
Lemma index_of_key_of_index (n : nat) : index_of_key (key_of_index n) = Some n.
Proof.
  unfold index_of_key, key_of_index at 1.
  rewrite NilEmpty.usu, Unsigned.of_to. fold (key_of_index n).
  by rewrite String.eqb_refl.
Qed.

(** What the spread copies out of an array is what a read of the
    array gives under the same key. *)
Lemma own_enumerable_array_Get (es : list (option value)) (k : string) (v : value) :
  own_enumerable (VArray es) !! k = Some v → Get (VArray es) k = Normal v.
Proof.
  intros H. apply elem_of_list_to_map_2 in H.
  apply list_elem_of_omap in H as (x & Hx & Hid).
  apply elem_of_lookup_imap in Hx as (i & o & -> & Hi).
  destruct o as [w|]; [|discriminate]. injection Hid as <- <-.
  simpl. unfold array_get.
  pose proof (index_of_key_of_index i) as Hk.
  destruct (String.eqb (key_of_index i) "length") eqn:E.
  - apply String.eqb_eq in E. rewrite E in Hk. discriminate.
  - by rewrite Hk, Hi.
Qed.

Lemma has_string_lookup (ps : gmap string value) (k : string) :
  has_string (VObject ps) k ↔ ∃ s, ps !! k = Some (VString s).
Proof.
  unfold has_string. rewrite Get_object. split; intros [s H]; exists s.
  - destruct (ps !! k); simpl in H; congruence.
  - by rewrite H.
Qed.

Lemma js_and_Normal (v : value) (e : completion value) :
  Normal v &&& e = if ToBoolean v then e else Normal v.
Proof. reflexivity. Qed.

Lemma js_and_falsy (v : value) (e : completion value) :
  ToBoolean v = false → Normal v &&& e = Normal v.
Proof. intros H. by rewrite js_and_Normal, H. Qed.

Lemma is_object_dec (v : value) : (∃ ps, v = VObject ps) ∨ (∀ ps, v ≠ VObject ps).
Proof. destruct v; try (by right); left; eauto. Qed.

(** ** The element guard and the traversal *)

(** The callback never ends abruptly, and its result is truthy
    exactly on the elements of field-error shape. *)
Lemma fieldError_guard_spec (f : value) :
  ∃ r, fieldError_guard f = Normal r ∧ (ToBoolean r = true ↔ FieldError_shape f).
Proof.
  unfold fieldError_guard.
  destruct (is_object_dec f) as [[ps ->]|Hno].
  - unfold FieldError_shape. setoid_rewrite has_string_lookup.
    change (Normal (VObject ps) &&& typeof_is (Normal (VObject ps)) "object")
      with (Normal (VBoolean true)).
    rewrite js_and_boolean, Get_object, typeof_is_Normal, js_and_boolean, Get_object,
      typeof_is_Normal.
    destruct (String.eqb (typeof (default VUndefined (ps !! "field"))) "string") eqn:Hf.
    + eexists; split; [reflexivity|]. simpl.
      apply typeof_string in Hf as [s Hf]. rewrite typeof_string.
      destruct (ps !! "field") as [x|] eqn:E; simpl in Hf; [subst x|discriminate].
      split.
      * intros [s' Hs']. split; [by eauto|].
        destruct (ps !! "message") as [y|]; simpl in Hs'; [subst y; eauto|discriminate].
      * intros [_ [s' ->]]. eauto.
    + eexists; split; [reflexivity|]. simpl. split; [discriminate|].
      intros [[s Hs] _]. rewrite Hs in Hf. discriminate.
  - assert (∃ r, Normal f &&& typeof_is (Normal f) "object"
                 &&& typeof_is (Get f "field") "string" = Normal r
                 ∧ ToBoolean r = false) as (r & Hr & Hfalse).
    { destruct f as [| |b|x|z|s|id|id|ps|es]; try by eexists.
      - destruct b; by eexists.
      - destruct x; by eexists.
      - rewrite js_and_Normal. destruct (ToBoolean (VBigInt z)) eqn:E; [by eexists|].
        exists (VBigInt z). by rewrite js_and_falsy.
      - rewrite js_and_Normal. destruct (ToBoolean (VString s)) eqn:E; [by eexists|].
        exists (VString s). by rewrite js_and_falsy.
      - by destruct (Hno ps). }
    exists r. rewrite Hr, js_and_falsy by done. split; [done|].
    rewrite Hfalse. split; [discriminate|].
    intros [H _]. apply has_string_object in H as (ps & ? & ? & _); [|done..].
    by destruct (Hno ps).
Qed.

(** [every] over the guard decides whether all present elements have
    the field-error shape. *)
Lemma every_fieldError_guard (es : list (option value)) :
  ∃ b, every fieldError_guard es = Normal (VBoolean b)
       ∧ (b = true ↔ ∀ f, Some f ∈ es → FieldError_shape f).
Proof.
  induction es as [|[x|] es (b & IH & Hb)]; simpl.
  - exists true. split; [done|]. split; [|done]. intros _ f Hf. by apply elem_of_nil in Hf.
  - destruct (fieldError_guard_spec x) as (r & -> & Hr). simpl.
    destruct (ToBoolean r).
    + exists b. split; [done|]. rewrite Hb. split.
      * intros H f [[= ->]|Hf]%elem_of_cons; [by apply Hr|by apply H].
      * intros H f Hf. apply H. by right.
    + exists false. split; [done|]. split; [discriminate|].
      intros H. assert (FieldError_shape x) as Hx by (apply H; left).
      apply Hr in Hx. discriminate.
  - exists b. split; [done|]. rewrite Hb. split.
    + intros H f [[=]|Hf]%elem_of_cons. by apply H.
    + intros H f Hf. apply H. by right.
Qed.

(** ** The guard against the shape *)

Lemma js_and_booleans (a b : bool) :
  Normal (VBoolean a) &&& Normal (VBoolean b) = Normal (VBoolean (a && b)).
Proof. by destruct a. Qed.

Lemma js_or_booleans (a b : bool) :
  Normal (VBoolean a) ||| Normal (VBoolean b) = Normal (VBoolean (a || b)).
Proof. by destruct a. Qed.

Lemma is_undefined_Normal (v : value) :
  is_undefined (Normal v) = Normal (VBoolean (IsUndefined v)).
Proof. reflexivity. Qed.

Lemma is_array_Normal (v : value) :
  is_array (Normal v) = Normal (VBoolean (IsArray v)).
Proof. reflexivity. Qed.

(** [Array.isArray(fe) && fe.every(...)]: the test protects the call. *)
Lemma fieldErrors_check (fe : value) :
  ∃ b, Normal (VBoolean (IsArray fe)) &&& Invoke_every fe fieldError_guard
       = Normal (VBoolean b)
       ∧ (b = true ↔ ∃ es, fe = VArray es ∧ ∀ f, Some f ∈ es → FieldError_shape f).
Proof.
  rewrite js_and_boolean.
  destruct fe as [| |b|x|z|s|id|id|ps|es]; simpl;
    try (exists false; split; [done|]; split; [discriminate|]; by intros (? & [=] & _)).
  destruct (every_fieldError_guard es) as (b & -> & Hb).
  exists b. split; [done|]. rewrite Hb. split; [by eauto|].
  by intros (? & [= <-] & H).
Qed.

(** An optional field passes when it reads as [undefined] or
    satisfies the test for a present one. *)
Lemma optional_check (x : value) (b : bool) (P : value → Prop) :
  (b = true ↔ P x) →
  (IsUndefined x || b = true ↔ ∀ d, Normal x = Normal d ∧ d ≠ VUndefined → P d).
Proof.
  intros Hb. split.
  - intros H d [[= <-] Hd]. apply orb_true_iff in H as [H|H].
    + by apply IsUndefined_true in H.
    + by apply Hb.
  - intros H. destruct (IsUndefined x) eqn:E; [done|]. simpl.
    apply Hb, H. split; [done|]. by apply IsUndefined_false.
Qed.

(** On an object the guard is the conjunction of its five tests. *)
Lemma isApiError_object (ps : gmap string value) :
  ∃ b, isApiError (VObject ps) = Normal (VBoolean b)
       ∧ (b = true ↔ ApiError_shape (VObject ps)).
Proof.
  unfold isApiError, ApiError_shape, details_ok, fieldErrors_ok, correlationId_ok, present.
  cbv zeta.
  change (negb (ToBoolean (VObject ps))
          || negb (String.eqb (typeof (VObject ps)) "object")) with false.
  cbv iota. rewrite !Get_object, !typeof_is_Normal, !is_undefined_Normal, is_array_Normal.
  cbn [mbind completion_bind].
  destruct (fieldErrors_check (default VUndefined (ps !! "fieldErrors")))
    as (bf & -> & Hbf).
  rewrite !js_or_booleans, !js_and_booleans.
  eexists; split; [reflexivity|].
  rewrite !andb_true_iff, !typeof_string.
  rewrite (optional_check _ _ (λ d, typeof d = "object")) by apply typeof_object.
  rewrite (optional_check _ _
             (λ fe, ∃ es, fe = VArray es ∧ ∀ f, Some f ∈ es → FieldError_shape f) Hbf).
  rewrite (optional_check _ _ (λ c, ∃ s, c = VString s)) by apply typeof_string.
  unfold has_string. rewrite !Get_object.
  split.
  - intros [[[[[s ->] [s' ->]] ?] ?] ?]. eauto 10.
  - intros ([s [= ->]] & [s' [= ->]] & ? & ? & ?). eauto 10.
Qed.

(** What is not an object has no string [code]. *)
Lemma not_object_no_shape (v : value) : (∀ ps, v ≠ VObject ps) → ¬ ApiError_shape v.
Proof.
  intros Hv [H _]. apply has_string_object in H as (ps & ? & ? & _); [|done..].
  by apply (Hv ps).
Qed.

Lemma isApiError_not_object (v : value) :
  (∀ ps, v ≠ VObject ps) → isApiError v = Normal (VBoolean false).
Proof.
  intros Hv. destruct v as [| |b|x|z|s|id|id|ps|es]; try reflexivity.
  - unfold isApiError. simpl. by rewrite orb_true_r.
  - unfold isApiError. simpl. by rewrite orb_true_r.
  - unfold isApiError. simpl. by rewrite orb_true_r.
  - unfold isApiError. simpl. by rewrite orb_true_r.
  - by destruct (Hv ps).
Qed.

(** The guard returns a boolean on every value, and the boolean says
    whether the value has the shape. *)
Lemma isApiError_spec (v : value) :
  ∃ b, isApiError v = Normal (VBoolean b) ∧ (b = true ↔ ApiError_shape v).
Proof.
  destruct (is_object_dec v) as [[ps ->]|Hv].
  - apply isApiError_object.
  - exists false. split; [by apply isApiError_not_object|].
    split; [discriminate|]. intros H. by apply not_object_no_shape in H.
Qed.

(** ** The constructor *)

(** The properties of the constructed object, key by key: what the
    partial supplies, else [undefined] under the three optional
    names, else nothing. *)
Lemma createApiError_lookup (partial : value) :
  ∃ r, createApiError partial = Normal (VObject r)
       ∧ ∀ k, r !! k = match own_enumerable partial !! k with
                       | Some v => Some v
                       | None => if bool_decide (k ∈ optional_fields)
                                 then Some VUndefined else None
                       end.
Proof.
  eexists. split; [reflexivity|]. intros k. unfold spread.
  rewrite lookup_union. destruct (own_enumerable partial !! k) as [v|]; simpl.
  - by destruct (_ !! k).
  - unfold optional_fields.
    destruct (decide (k = "correlationId")) as [->|Hc]; [done|].
    destruct (decide (k = "fieldErrors")) as [->|Hf]; [done|].
    destruct (decide (k = "details")) as [->|Hd]; [done|].
    rewrite !lookup_insert_ne, lookup_empty by done.
    rewrite bool_decide_eq_false_2; [done|].
    rewrite !elem_of_cons, elem_of_nil. tauto.
Qed.

(** A read of the constructed object gives what the same read of an
    object partial gives: a defaulted field reads as [undefined], as
    a missing one does. *)
Lemma Get_createApiError (ps : gmap string value) :
  ∃ r, createApiError (VObject ps) = Normal (VObject r)
       ∧ ∀ k, Get (VObject r) k = Get (VObject ps) k.
Proof.
  destruct (createApiError_lookup (VObject ps)) as (r & Hr & Hk).
  exists r. split; [done|]. intros k. rewrite !Get_object, Hk. simpl.
  destruct (ps !! k); [done|]. by case_bool_decide.
Qed.

(** The shape speaks of a value through its reads only. *)
Lemma ApiError_shape_ext (v w : value) :
  (∀ k, Get w k = Get v k) → ApiError_shape v → ApiError_shape w.
Proof.
  intros H. unfold ApiError_shape, details_ok, fieldErrors_ok, correlationId_ok,
    present, has_string. by rewrite !H.
Qed.


Lemma isApiError_true (v : value) :
  isApiError v = Normal (VBoolean true) ↔ ApiError_shape v.
Proof.
  destruct (isApiError_spec v) as (b & -> & Hb). rewrite <- Hb.
  split; [by intros [= ->]|by intros ->].
Qed.

Lemma isApiError_false (v : value) :
  isApiError v = Normal (VBoolean false) ↔ ¬ ApiError_shape v.
Proof.
  destruct (isApiError_spec v) as (b & -> & Hb). rewrite <- Hb.
  split; [by intros [= ->]|]. by destruct b.
Qed.


Lemma is_ApiErrorCode_tag (c : ApiErrorCode) : is_ApiErrorCode (ApiErrorCode_tag c) = true.
Proof. by destruct c. Qed.

Lemma is_ApiErrorCode_true (s : string) :
  is_ApiErrorCode s = true ↔ ∃ c, ApiErrorCode_tag c = s.
Proof.
  split.
  - unfold is_ApiErrorCode. rewrite existsb_exists.
    intros (c & _ & Hc). exists c. by apply String.eqb_eq.
  - intros [c <-]. apply is_ApiErrorCode_tag.
Qed.

(** ** The guard: shape, totality, rejections *)

(** C1. For every input value, [isApiError] returns true if and only
    if the value has the ApiError shape: a string [code], a string
    [message] and, for each optional field that is present, [details]
    object-typed, [fieldErrors] a sequence whose elements all have a
    string [field] and a string [message], [correlationId] a string. *)
Theorem isApiError_iff_shape (input : value) :
  isApiError input = Normal (VBoolean true) ↔ ApiError_shape input.
Proof. apply isApiError_true. Qed.

(** On plain data [isApiError] returns a boolean, true on the values
    of ApiError shape and false on all others ([null], non-objects
    and non-conforming objects included), and never ends in a
    TypeError: the guards keep every read off [undefined] and
    [null] and every call of [every] on an array. *)
Theorem isApiError_total (input partial : value) :
  (isApiError input = Normal (VBoolean true) ∧ ApiError_shape input
   ∨ isApiError input = Normal (VBoolean false) ∧ ¬ ApiError_shape input)
  ∧ (∃ r, createApiError partial = Normal (VObject r)).
Proof.
  split.
  - destruct (isApiError_spec input) as ([|] & Hi & Hb).
    + left. split; [done|]. by apply Hb.
    + right. split; [done|]. intros H. apply Hb in H. discriminate.
  - by eexists.
Qed.





(** C8. For every object whose only fields are a string [code] and a
    string [message], [isApiError] returns true. *)
Theorem isApiError_accepts_minimal (ps : gmap string value) (c m : string) :
  ps !! "code" = Some (VString c) →
  ps !! "message" = Some (VString m) →
  (∀ k, k ≠ "code" → k ≠ "message" → ps !! k = None) →
  isApiError (VObject ps) = Normal (VBoolean true).
Proof.
  intros Hc Hm Honly. apply isApiError_true.
  unfold ApiError_shape, details_ok, fieldErrors_ok, correlationId_ok, present.
  rewrite !has_string_lookup, !Get_object.
  rewrite (Honly "details"), (Honly "fieldErrors"), (Honly "correlationId") by done. simpl.
  split; [by eauto|]. split; [by eauto|].
  split; [|split]; by intros ? [[= <-] ?].
Qed.

Lemma isApiError_accepts_minimal_witness :
  isApiError not_found_partial = Normal (VBoolean true).
Proof.
  apply (isApiError_accepts_minimal
           (list_to_map [("code", VString "NOT_FOUND"); ("message", VString "x")])
           "NOT_FOUND" "x").
  - vm_compute. reflexivity.
  - vm_compute. reflexivity.
  - intros k Hc Hm. simpl. by rewrite !lookup_insert_ne, lookup_empty.
Defined.

(** ** The invariant of the data model *)

(** C3, as stated, fails: [isApiError] accepts an object whose
    [code] is none of the ten error kinds. *)
Lemma ApiError_invariant_not_checked :
  isApiError weird = Normal (VBoolean true) ∧ ¬ ApiError_invariant weird.
Proof.
  split; [by vm_compute|].
  intros [[c Hc] _]. destruct c; vm_compute in Hc; discriminate Hc.
Qed.

(** ** Beyond the shape: what the guard reads and what it ignores *)

(** The verdict on an object is a function of the reads of its five
    fields. *)
Lemma isApiError_reads (ps qs : gmap string value) :
  (∀ k, k ∈ ApiError_fields → Get (VObject ps) k = Get (VObject qs) k) →
  isApiError (VObject ps) = isApiError (VObject qs).
Proof.
  intros H. unfold isApiError. cbv zeta.
  change (negb (ToBoolean (VObject ps))
          || negb (String.eqb (typeof (VObject ps)) "object")) with false.
  change (negb (ToBoolean (VObject qs))
          || negb (String.eqb (typeof (VObject qs)) "object")) with false.
  cbv iota.
  rewrite (H "code"), (H "message"), (H "details"), (H "fieldErrors"),
    (H "correlationId"); [done|unfold ApiError_fields; set_solver..].
Qed.

(** Two verdicts that hold for the same shapes are the same verdict. *)
Lemma isApiError_shape_congr (v w : value) :
  (ApiError_shape v ↔ ApiError_shape w) → isApiError v = isApiError w.
Proof.
  intros H.
  destruct (isApiError_spec v) as (b & -> & Hb).
  destruct (isApiError_spec w) as (b' & -> & Hb').
  do 2 f_equal. apply eq_true_iff_eq.
  unfold is_true in *. by rewrite Hb, Hb'.
Qed.

(** For an object whose [fieldErrors] is the array [es], the test of
    that field is the test of the present elements of [es]. *)
Lemma fieldErrors_ok_array (ps : gmap string value) (es : list (option value)) :
  fieldErrors_ok (VObject (<["fieldErrors" := VArray es]> ps))
  ↔ elements_all FieldError_shape es.
Proof.
  unfold fieldErrors_ok, present. rewrite Get_object, lookup_insert_eq. simpl. split.
  - intros Hall. destruct (Hall (VArray es)) as (l & [= <-] & Hl); [|done].
    split; [done|discriminate].
  - intros Hall fe [[= <-] _]. by exists es.
Qed.

(** The verdict depends on a [fieldErrors] array only through the
    shape of its present elements. *)
Lemma isApiError_fieldErrors_congr
  (ps : gmap string value) (es es' : list (option value)) :
  (elements_all FieldError_shape es ↔ elements_all FieldError_shape es') →
  isApiError (VObject (<["fieldErrors" := VArray es]> ps))
  = isApiError (VObject (<["fieldErrors" := VArray es']> ps)).
Proof.
  intros H. apply isApiError_shape_congr.
  unfold ApiError_shape. rewrite !fieldErrors_ok_array, H.
  unfold details_ok, correlationId_ok, present, has_string.
  rewrite !Get_object, !lookup_insert_ne by discriminate. done.
Qed.

(** A property of a value that is not an object, as the spread sees
    it, sits under an index key. *)
Lemma own_enumerable_index_key (p : value) (k : string) (v : value) :
  (∀ ps, p ≠ VObject ps) → own_enumerable p !! k = Some v → is_Some (index_of_key k).
Proof.
  intros Hp H. destruct p as [| |b|x|z|s|id|id|ps|es]; simpl in H;
    try (by rewrite lookup_empty in H).
  - apply elem_of_list_to_map_2, elem_of_lookup_imap in H as (i & c & [= -> _] & _).
    rewrite index_of_key_of_index. by eexists.
  - by destruct (Hp ps).
  - apply elem_of_list_to_map_2, list_elem_of_omap in H as (o & Ho & Hid).
    apply elem_of_lookup_imap in Ho as (i & [w|] & -> & _); [|discriminate].
    injection Hid as <- _. rewrite index_of_key_of_index. by eexists.
Qed.

Lemma FieldError_shape_insert (fps : gmap string value) (k : string) (x : value) :
  k ≠ "field" → k ≠ "message" →
  FieldError_shape (VObject (<[k := x]> fps)) ↔ FieldError_shape (VObject fps).
Proof.
  intros Hf Hm. unfold FieldError_shape.
  by rewrite !has_string_lookup, !lookup_insert_ne.
Qed.

Lemma FieldError_to_value_shape (f : FieldError.t) :
  FieldError_shape (FieldError.to_value f).
Proof.
  unfold FieldError_shape, FieldError.to_value. rewrite !has_string_lookup.
  destruct (FieldError.code f); simpl;
    rewrite ?(lookup_insert_ne _ "code") by discriminate.
  all: rewrite (lookup_insert_ne _ "message" "field") by discriminate.
  all: rewrite !lookup_insert_eq; eauto.
Qed.

Lemma ApiError_to_value_reads (e : ApiError.t) :
  Get (ApiError.to_value e) "code" = Normal (VString (ApiErrorCode_tag (ApiError.code e)))
  ∧ Get (ApiError.to_value e) "message" = Normal (VString (ApiError.message e))
  ∧ Get (ApiError.to_value e) "details"
    = Normal (from_option VObject VUndefined (ApiError.details e))
  ∧ Get (ApiError.to_value e) "fieldErrors"
    = Normal (from_option
                (λ l, VArray ((λ f, Some (FieldError.to_value f)) <$> l))
                VUndefined (ApiError.fieldErrors e))
  ∧ Get (ApiError.to_value e) "correlationId"
    = Normal (from_option VString VUndefined (ApiError.correlationId e)).
Proof.
  destruct e as [c m [d|] [fe|] [ci|]]; unfold ApiError.to_value, Get; simpl;
    repeat (rewrite lookup_insert_eq || rewrite lookup_insert_ne by discriminate
            || rewrite lookup_empty);
    simpl; auto.
Qed.

Lemma ApiError_to_value_shape (e : ApiError.t) : ApiError_shape (ApiError.to_value e).
Proof.
  destruct (ApiError_to_value_reads e) as (Hc & Hm & Hd & Hf & Hi).
  unfold ApiError_shape, details_ok, fieldErrors_ok, correlationId_ok, present, has_string.
  rewrite Hc, Hm, Hd, Hf, Hi.
  split; [by eauto|]. split; [by eauto|]. split; [|split].
  - intros d [[= <-] Hd']. by destruct (ApiError.details e).
  - intros fe [[= <-] Hfe]. destruct (ApiError.fieldErrors e) as [l|]; [|done].
    simpl. eexists. split; [done|].
    intros f (x & [= ->] & _)%list_elem_of_fmap. apply FieldError_to_value_shape.
  - intros c [[= <-] Hc']. destruct (ApiError.correlationId e); [by eauto|done].
Qed.

(** ** The code is checked as a string, [details] by [typeof] *)

(** With a string [code], what is left of the shape is the rest of it. *)
Lemma ApiError_shape_code (ps : gmap string value) (c : string) :
  ApiError_shape (VObject (<["code" := VString c]> ps))
  ↔ has_string (VObject ps) "message" ∧ details_ok (VObject ps)
    ∧ fieldErrors_ok (VObject ps) ∧ correlationId_ok (VObject ps).
Proof.
  unfold ApiError_shape, details_ok, fieldErrors_ok, correlationId_ok, present, has_string.
  rewrite !Get_object, lookup_insert_eq, !lookup_insert_ne by discriminate. simpl.
  split; [by intros (_ & ?)|]. intros H. split; [by eauto|done].
Qed.

(** C9. For every object with a string [message] and a [code] that
    is a string outside the ten error kinds, [isApiError] still
    returns true: its verdict is the one the same object gets with
    a recognized code, and it is true whenever the optional fields
    pass, the code being checked as a string only. *)
Theorem isApiError_accepts_unrecognized_code
  (ps : gmap string value) (c : string) (known : ApiErrorCode) :
  ps !! "code" = Some (VString c) →
  is_ApiErrorCode c = false →
  has_string (VObject ps) "message" →
  isApiError (VObject ps)
  = isApiError (VObject (<["code" := VString (ApiErrorCode_tag known)]> ps))
  ∧ (isApiError (VObject ps) = Normal (VBoolean true)
     ↔ details_ok (VObject ps) ∧ fieldErrors_ok (VObject ps)
       ∧ correlationId_ok (VObject ps)).
Proof.
  intros Hc _ Hm. rewrite <- (insert_id ps "code" (VString c) Hc) at 1 3.
  split.
  - apply isApiError_shape_congr. by rewrite !ApiError_shape_code.
  - rewrite isApiError_true, ApiError_shape_code. tauto.
Qed.

Lemma isApiError_accepts_unrecognized_code_witness :
  isApiError weird = Normal (VBoolean true).
Proof.
  destruct (isApiError_accepts_unrecognized_code
              (list_to_map [("code", VString "WEIRD"); ("message", VString "x")])
              "WEIRD" NOT_FOUND) as [_ H].
  - vm_compute. reflexivity.
  - vm_compute. reflexivity.
  - exists "x". vm_compute. reflexivity.
  - apply H. split; [|split]; field_absent.
Defined.

(** C10. For every object with a string [code], a string [message]
    and [details] equal to [null], the test of [details] passes:
    [isApiError] gives the verdict it gives the same object without
    [details], which is true whenever [fieldErrors] and
    [correlationId] pass, although [null] is no record. *)
Theorem isApiError_accepts_null_details (ps : gmap string value) :
  has_string (VObject ps) "code" → has_string (VObject ps) "message" →
  ps !! "details" = Some VNull →
  isApiError (VObject ps) = isApiError (VObject (delete "details" ps))
  ∧ (isApiError (VObject ps) = Normal (VBoolean true)
     ↔ fieldErrors_ok (VObject ps) ∧ correlationId_ok (VObject ps))
  ∧ ¬ is_Record VNull.
Proof.
  intros Hc Hm Hd.
  assert (details_ok (VObject ps)) as Hok.
  { intros d [Hd' _]. rewrite Get_object, Hd in Hd'. by injection Hd' as <-. }
  split; [|split].
  - apply isApiError_shape_congr.
    unfold ApiError_shape at 2.
    unfold details_ok, fieldErrors_ok, correlationId_ok, present, has_string.
    rewrite !Get_object, lookup_delete_eq, !lookup_delete_ne by discriminate. simpl.
    unfold ApiError_shape, fieldErrors_ok, correlationId_ok, present, has_string.
    rewrite !Get_object. split.
    + intros (? & ? & _ & ? & ?). repeat (split; [done|]). split; [|done].
      by intros d [[= <-] ?].
    + intros (? & ? & _ & ? & ?). done.
  - rewrite isApiError_true. unfold ApiError_shape. tauto.
  - by intros [qs ?].
Qed.

Lemma isApiError_accepts_null_details_witness :
  isApiError null_details = Normal (VBoolean true).
Proof.
  destruct (isApiError_accepts_null_details
              (list_to_map [("code", VString "NOT_FOUND");
                            ("message", VString "x"); ("details", VNull)]))
    as (_ & H & _).
  - exists "NOT_FOUND". vm_compute. reflexivity.
  - exists "x". vm_compute. reflexivity.
  - vm_compute. reflexivity.
  - apply H. split; field_absent.
Defined.

(** ** The constructor composed with itself and with the guard *)

(** X1. [createApiError] is idempotent: applied to its own result it
    returns that result again, for every input. *)
Theorem createApiError_idempotent (partial : value) :
  ∃ r, createApiError partial = Normal r ∧ createApiError r = Normal r.
Proof.
  destruct (createApiError_lookup partial) as (r & Hr & Hk).
  destruct (createApiError_lookup (VObject r)) as (r' & Hr' & Hk').
  exists (VObject r). split; [done|]. rewrite Hr'. do 2 f_equal.
  apply map_eq. intros k. rewrite Hk'. simpl.
  destruct (r !! k) as [v|] eqn:E; [done|].
  rewrite Hk in E. destruct (own_enumerable partial !! k); [done|].
  by case_bool_decide.
Qed.

(** On plain data [createApiError] neither repairs nor spoils its
    argument: the verdict on the constructed object is the verdict
    on the argument. *)
Lemma createApiError_verdict_plain (partial : value) :
  ∃ r, createApiError partial = Normal r ∧ isApiError r = isApiError partial.
Proof.
  destruct (is_object_dec partial) as [[ps ->]|Hp].
  - destruct (Get_createApiError ps) as (r & Hr & Hk).
    exists (VObject r). split; [done|]. apply isApiError_reads. intros k _. apply Hk.
  - destruct (createApiError_lookup partial) as (r & Hr & Hk).
    exists (VObject r). split; [done|].
    rewrite (isApiError_not_object partial Hp). apply isApiError_false.
    intros [[s Hs] _]. rewrite Get_object, Hk in Hs.
    destruct (own_enumerable partial !! "code") as [v|] eqn:E; [|discriminate].
    apply own_enumerable_index_key in E as [n Hn]; [discriminate|done].
Qed.

(** X6. For [createApiError] an optional field supplied as
    [undefined] is a field left out: both partials give the same
    object. *)
Theorem createApiError_undefined_as_omitted (ps : gmap string value) (k : string) :
  k ∈ optional_fields →
  createApiError (VObject (<[k := VUndefined]> ps))
  = createApiError (VObject (delete k ps)).
Proof.
  intros Hk.
  destruct (createApiError_lookup (VObject (<[k := VUndefined]> ps))) as (r & -> & Hr).
  destruct (createApiError_lookup (VObject (delete k ps))) as (r' & -> & Hr').
  do 2 f_equal. apply map_eq. intros j. rewrite Hr, Hr'. simpl.
  destruct (decide (k = j)) as [<-|Hne].
  - by rewrite lookup_insert_eq, lookup_delete_eq, bool_decide_eq_true_2.
  - by rewrite lookup_insert_ne, lookup_delete_ne.
Qed.

Lemma createApiError_undefined_as_omitted_witness :
  createApiError (VObject (<["details" := VUndefined]> ∅))
  = createApiError (VObject (delete "details" ∅)).
Proof.
  apply (createApiError_undefined_as_omitted ∅ "details"). apply list_elem_of_here.
Defined.

(** ** What the guard reads *)

(** X3. [isApiError] reads the five fields of [ApiError] and nothing
    else: giving an object any other property, with any value, does
    not change the verdict. *)
Theorem isApiError_ignores_other_properties
  (ps : gmap string value) (k : string) (v : value) :
  k ∉ ApiError_fields →
  isApiError (VObject (<[k := v]> ps)) = isApiError (VObject ps).
Proof.
  intros Hk. apply isApiError_reads. intros j Hj.
  rewrite !Get_object, lookup_insert_ne; [done|]. by intros ->.
Qed.

Lemma isApiError_ignores_other_properties_witness :
  isApiError
    (VObject (<["status" := VNumber five]>
                (list_to_map [("code", VString "NOT_FOUND"); ("message", VString "x")])))
  = isApiError not_found_partial.
Proof.
  apply (isApiError_ignores_other_properties
           (list_to_map [("code", VString "NOT_FOUND"); ("message", VString "x")])
           "status" (VNumber five)).
  unfold ApiError_fields. rewrite !elem_of_cons, elem_of_nil.
  intros [H|[H|[H|[H|[H|[]]]]]]; discriminate H.
Defined.




(** ** The elements of [fieldErrors] *)

(** X4. Of an element of [fieldErrors] the guard reads [field] and
    [message] only: giving an element any other property, its
    optional [code] included, with any value, does not change the
    verdict. *)
Theorem isApiError_ignores_element_properties
  (ps : gmap string value) (es : list (option value)) (i : nat)
  (fps : gmap string value) (k : string) (x : value) :
  es !! i = Some (Some (VObject fps)) →
  k ≠ "field" → k ≠ "message" →
  isApiError
    (VObject (<["fieldErrors" := VArray (<[i := Some (VObject (<[k := x]> fps))]> es)]> ps))
  = isApiError (VObject (<["fieldErrors" := VArray es]> ps)).
Proof.
  intros Hi Hf Hm. apply isApiError_fieldErrors_congr.
  pose proof (FieldError_shape_insert fps k x Hf Hm) as Hshape.
  pose proof (lookup_lt_Some _ _ _ Hi) as Hlt.
  unfold elements_all. split; intros Hall f [j Hj]%list_elem_of_lookup.
  - destruct (decide (i = j)) as [<-|Hne].
    + rewrite Hi in Hj. injection Hj as <-. apply Hshape, Hall.
      apply list_elem_of_lookup. exists i. by apply list_lookup_insert_eq.
    + apply Hall, list_elem_of_lookup. exists j. by rewrite list_lookup_insert_ne.
  - destruct (decide (i = j)) as [<-|Hne].
    + rewrite list_lookup_insert_eq in Hj by done. injection Hj as <-.
      apply Hshape, Hall, list_elem_of_lookup. by exists i.
    + rewrite list_lookup_insert_ne in Hj by done.
      apply Hall, list_elem_of_lookup. by exists j.
Qed.

Lemma isApiError_ignores_element_properties_witness :
  isApiError
    (VObject
       (<["fieldErrors" :=
            VArray (<[0 := Some (VObject
                                   (<["code" := VNumber five]>
                                      (list_to_map [("field", VString "email");
                                                    ("message", VString "invalid")])))]>
                      [Some (obj [("field", VString "email");
                                  ("message", VString "invalid")])])]>
          (list_to_map [("code", VString "VALIDATION_ERROR");
                        ("message", VString "bad")])))
  = isApiError validation_partial
  ∧ isApiError validation_partial = Normal (VBoolean true).
Proof.
  split; [|by vm_compute].
  transitivity
    (isApiError
       (VObject
          (<["fieldErrors" :=
               VArray [Some (obj [("field", VString "email");
                                  ("message", VString "invalid")])]]>
             (list_to_map [("code", VString "VALIDATION_ERROR");
                           ("message", VString "bad")])))); [|by vm_compute].
  apply (isApiError_ignores_element_properties
           (list_to_map [("code", VString "VALIDATION_ERROR"); ("message", VString "bad")])
           [Some (obj [("field", VString "email"); ("message", VString "invalid")])]
           0
           (list_to_map [("field", VString "email"); ("message", VString "invalid")])
           "code" (VNumber five)).
  - reflexivity.
  - discriminate.
  - discriminate.
Defined.

(** X9. Holes of a sparse [fieldErrors] array are not tested: the
    verdict is the verdict on the array of the present elements. *)
Theorem isApiError_skips_holes (ps : gmap string value) (es : list (option value)) :
  isApiError (VObject (<["fieldErrors" := VArray es]> ps))
  = isApiError (VObject (<["fieldErrors" := VArray (Some <$> omap id es)]> ps)).
Proof.
  apply isApiError_fieldErrors_congr. unfold elements_all.
  split; intros Hall f Hf; apply Hall.
  - apply list_elem_of_fmap in Hf as (y & [= <-] & Hy).
    by apply list_elem_of_omap in Hy as ([z|] & Hz & [= <-]).
  - apply list_elem_of_fmap. exists f. split; [done|].
    apply list_elem_of_omap. by exists (Some f).
Qed.

(** X10. The verdict does not depend on the order of the elements of
    [fieldErrors]. *)
Theorem isApiError_fieldErrors_order
  (ps : gmap string value) (es es' : list (option value)) :
  es ≡ₚ es' →
  isApiError (VObject (<["fieldErrors" := VArray es]> ps))
  = isApiError (VObject (<["fieldErrors" := VArray es']> ps)).
Proof.
  intros Hp. apply isApiError_fieldErrors_congr. unfold elements_all.
  split; intros Hall f Hf; apply Hall; [by rewrite Hp|by rewrite <- Hp].
Qed.

Lemma isApiError_fieldErrors_order_witness :
  isApiError
    (VObject
       (<["fieldErrors" :=
            VArray [Some (obj [("field", VString "email"); ("message", VString "invalid")]);
                    Some (obj [("field", VString "name")])]]>
          (list_to_map [("code", VString "VALIDATION_ERROR");
                        ("message", VString "bad")])))
  = isApiError
      (VObject
         (<["fieldErrors" :=
              VArray [Some (obj [("field", VString "name")]);
                      Some (obj [("field", VString "email");
                                 ("message", VString "invalid")])]]>
            (list_to_map [("code", VString "VALIDATION_ERROR");
                          ("message", VString "bad")])))
  ∧ isApiError
      (VObject
         (<["fieldErrors" :=
              VArray [Some (obj [("field", VString "email");
                                 ("message", VString "invalid")])]]>
            (list_to_map [("code", VString "VALIDATION_ERROR");
                          ("message", VString "bad")])))
    = Normal (VBoolean true).
Proof.
  split; [|by vm_compute].
  apply (isApiError_fieldErrors_order
           (list_to_map [("code", VString "VALIDATION_ERROR"); ("message", VString "bad")])).
  apply perm_swap.
Defined.

(** ** Values of the declared type *)

(** X7. Every value of the declared type [ApiError] passes
    [isApiError] and has a [code] among the ten error kinds and a
    string [message]. *)
Theorem isApiError_accepts_typed (e : ApiError.t) :
  isApiError (ApiError.to_value e) = Normal (VBoolean true)
  ∧ ApiError_invariant (ApiError.to_value e).
Proof.
  split.
  - apply isApiError_true, ApiError_to_value_shape.
  - destruct (ApiError_to_value_reads e) as (Hc & Hm & _).
    split; [by eexists|by eexists].
Qed.

(** ** Arguments with hidden properties and accessors *)

(** On a plain argument the two functions are the ones above. *)
Lemma Runtime_isApiError_Plain (v : value) :
  Runtime.isApiError (Runtime.Plain v) = isApiError v.
Proof. reflexivity. Qed.

Lemma Runtime_createApiError_Plain (v : value) :
  Runtime.createApiError (Runtime.Plain v) = createApiError v.
Proof. reflexivity. Qed.

(** The constructed object is made of the defaults and of what the
    spread copies, and of nothing else of the argument. *)
Lemma Runtime_createApiError_copy (partial : Runtime.input) (m : gmap string value) :
  Runtime.own_enumerable partial = Normal m →
  Runtime.createApiError partial = createApiError (VObject m).
Proof. intros H. unfold Runtime.createApiError. by rewrite H. Qed.

(** With data properties only, the copy succeeds. *)
Lemma Runtime_own_enumerable_data (i : Runtime.input) :
  Runtime.data_only i → ∃ m, Runtime.own_enumerable i = Normal m.
Proof.
  destruct i as [v|callable own inherited]; [by eexists|].
  intros [Ho _]. simpl. rewrite bool_decide_eq_true_2; [by eexists|].
  intros k p Hp. unfold Runtime.enumerable_slots in Hp. rewrite lookup_omap in Hp.
  destruct (own !! k) as [d|] eqn:E; [|discriminate]. simpl in Hp.
  specialize (Ho k d E). simpl in Ho.
  destruct (Runtime.enumerable d); [|discriminate]. injection Hp as <-.
  destruct (Runtime.slot d); [by eexists|discriminate].
Qed.

(** With data properties only, a read of an instance is the read of
    its view. *)
Lemma Runtime_Get_view
  (own : gmap string Runtime.descriptor) (inherited : gmap string Runtime.property)
  (k : string) :
  Runtime.data_only (Runtime.Instance false own inherited) →
  Runtime.Get (Runtime.Instance false own inherited) k
  = Get (Runtime.view (Runtime.Instance false own inherited)) k.
Proof.
  intros [Ho Hi]. simpl. rewrite lookup_union, !lookup_omap.
  destruct (own !! k) as [d|] eqn:E; simpl.
  - specialize (Ho k d E). simpl in Ho.
    destruct (Runtime.slot d) as [v|g]; [|discriminate]. simpl.
    by destruct (inherited !! k ≫= Runtime.readable).
  - destruct (inherited !! k) as [p|] eqn:E'; simpl; [|done].
    specialize (Hi k p E'). simpl in Hi. by destruct p.
Qed.

Lemma Runtime_isApiError_view (i : Runtime.input) :
  Runtime.data_only i → Runtime.isApiError i = isApiError (Runtime.view i).
Proof.
  destruct i as [v|[|] own inherited]; [done|done|].
  intros Hd. unfold Runtime.isApiError, isApiError. cbv zeta.
  rewrite !(Runtime_Get_view own inherited _ Hd). reflexivity.
Qed.

(** A conjunction with a truthy result had a truthy left operand and
    the result of its right operand. *)
Lemma js_and_truthy (x y : completion value) (w : value) :
  x &&& y = Normal w → ToBoolean w = true →
  (∃ v, x = Normal v ∧ ToBoolean v = true) ∧ y = Normal w.
Proof.
  destruct x as [v|r]; [|discriminate]. rewrite js_and_Normal.
  destruct (ToBoolean v) eqn:E.
  - intros -> _. by eauto.
  - intros [= <-] Hw. congruence.
Qed.

Lemma typeof_is_truthy (e : completion value) (t : string) (w : value) :
  typeof_is e t = Normal w → ToBoolean w = true →
  ∃ x, e = Normal x ∧ String.eqb (typeof x) t = true.
Proof.
  destruct e as [x|r]; [|discriminate]. rewrite typeof_is_Normal.
  intros [= <-] H. by eauto.
Qed.

(** An accepted argument reads as a string under [code] and under
    [message], whatever kind of property answers the read. *)
Lemma Runtime_isApiError_true_reads (i : Runtime.input) :
  Runtime.isApiError i = Normal (VBoolean true) →
  ∃ c s, Runtime.Get i "code" = Normal (VString c)
         ∧ Runtime.Get i "message" = Normal (VString s).
Proof.
  unfold Runtime.isApiError.
  destruct (negb (Runtime.ToBoolean i)
            || negb (String.eqb (Runtime.typeof i) "object")); [discriminate|].
  cbv zeta. intros H.
  apply js_and_truthy in H as [(v3 & H & Hv3) _]; [|done].
  apply js_and_truthy in H as [(v2 & H & Hv2) _]; [|done].
  apply js_and_truthy in H as [(v1 & H & Hv1) _]; [|done].
  apply js_and_truthy in H as [(v0 & Hc & Hv0) Hm]; [|done].
  apply typeof_is_truthy in Hc as (c & -> & [sc ->]%typeof_string); [|done].
  apply typeof_is_truthy in Hm as (m & -> & [sm ->]%typeof_string); [|done].
  by eauto.
Qed.

(** C2, as stated, fails: on an object whose [code] is a getter that
    throws, [isApiError] and [createApiError] both end in the
    getter's exception. *)
Lemma isApiError_throws_on_getter :
  Runtime.isApiError throwing_code = Abrupt UserCode
  ∧ Runtime.createApiError throwing_code = Abrupt UserCode.
Proof. split; by vm_compute. Qed.

(** C2, amended. On arguments whose properties are all data
    properties, arrays being plain arrays with the built-in [every],
    [isApiError] is total: it returns a boolean, true on the
    arguments whose reads show the ApiError shape and false on all
    others ([null], non-objects and non-conforming values included),
    and [createApiError] returns an object; neither raises an
    error. *)
Theorem isApiError_total_on_data (input partial : Runtime.input) :
  Runtime.data_only input → Runtime.data_only partial →
  (∃ b, Runtime.isApiError input = Normal (VBoolean b)
        ∧ (b = true ↔ ApiError_shape (Runtime.view input)))
  ∧ (∃ r, Runtime.createApiError partial = Normal (VObject r)).
Proof.
  intros Hi Hp. split.
  - rewrite (Runtime_isApiError_view input Hi). apply isApiError_spec.
  - destruct (Runtime_own_enumerable_data partial Hp) as [m Hm].
    rewrite (Runtime_createApiError_copy partial m Hm). by eexists.
Qed.

Lemma error_with_code_data_only : Runtime.data_only error_with_code.
Proof.
  split; simpl; repeat (apply map_Forall_insert_2; [done|]); apply map_Forall_empty.
Qed.

Lemma isApiError_total_on_data_witness :
  (∃ b, Runtime.isApiError error_with_code = Normal (VBoolean b)
        ∧ (b = true ↔ ApiError_shape (Runtime.view error_with_code)))
  ∧ (∃ r, Runtime.createApiError (Runtime.Plain VNull) = Normal (VObject r)).
Proof.
  apply (isApiError_total_on_data error_with_code (Runtime.Plain VNull)).
  - exact error_with_code_data_only.
  - exact I.
Defined.

(** ** The constructor on arguments with hidden properties *)

(** C3, amended. Every argument accepted by [isApiError] reads as a
    string under [code] and under [message]; every value
    [createApiError] makes from a partial whose own enumerable
    properties hold a [code] among the ten error kinds and a string
    [message] has a [code] among the ten error kinds and a string
    [message]. *)
Theorem ApiError_invariant_kept
  (input partial : Runtime.input) (m : gmap string value) :
  (Runtime.isApiError input = Normal (VBoolean true) →
   ∃ c s, Runtime.Get input "code" = Normal (VString c)
          ∧ Runtime.Get input "message" = Normal (VString s))
  ∧ (Runtime.own_enumerable partial = Normal m →
     ApiError_invariant (VObject m) →
     ∃ r, Runtime.createApiError partial = Normal r ∧ ApiError_invariant r).
Proof.
  split; [apply Runtime_isApiError_true_reads|].
  intros Hm [[c Hc] Hs]. rewrite (Runtime_createApiError_copy partial m Hm).
  destruct (Get_createApiError m) as (r & Hr & Hk).
  exists (VObject r). split; [done|].
  unfold ApiError_invariant, has_string. rewrite !Hk. eauto.
Qed.

Lemma ApiError_invariant_kept_witness :
  (∃ c s, Runtime.Get error_with_code "code" = Normal (VString c)
          ∧ Runtime.Get error_with_code "message" = Normal (VString s))
  ∧ (∃ r, Runtime.createApiError (Runtime.Plain not_found_partial) = Normal r
          ∧ ApiError_invariant r).
Proof.
  split.
  - apply (proj1 (ApiError_invariant_kept error_with_code (Runtime.Plain not_found_partial)
                    (list_to_map [("code", VString "NOT_FOUND"); ("message", VString "x")]))).
    vm_compute. reflexivity.
  - apply (proj2 (ApiError_invariant_kept error_with_code (Runtime.Plain not_found_partial)
                    (list_to_map [("code", VString "NOT_FOUND"); ("message", VString "x")]))).
    + reflexivity.
    + split; [exists NOT_FOUND|exists "x"]; vm_compute; reflexivity.
Defined.







(** X2. On plain data [createApiError] neither repairs nor spoils
    its argument: for every plain argument, the guard's verdict on
    the constructed object is its verdict on the argument. *)
Theorem createApiError_preserves_verdict (partial : value) :
  ∃ r, Runtime.createApiError (Runtime.Plain partial) = Normal r
       ∧ Runtime.isApiError (Runtime.Plain r)
         = Runtime.isApiError (Runtime.Plain partial).
Proof. apply createApiError_verdict_plain. Qed.

(** X11. Called with a plain object of the declared type,
    [createApiError] returns an object from which every field reads
    as the argument holds it, [undefined] for an optional field left
    out, and which passes [isApiError]. *)
Theorem createApiError_typed (e : ApiError.t) :
  ∃ r, Runtime.createApiError (Runtime.Plain (ApiError.to_value e)) = Normal r
       ∧ Get r "code" = Normal (VString (ApiErrorCode_tag (ApiError.code e)))
       ∧ Get r "message" = Normal (VString (ApiError.message e))
       ∧ Get r "details" = Normal (from_option VObject VUndefined (ApiError.details e))
       ∧ Get r "fieldErrors"
         = Normal (from_option
                     (λ l, VArray ((λ f, Some (FieldError.to_value f)) <$> l))
                     VUndefined (ApiError.fieldErrors e))
       ∧ Get r "correlationId"
         = Normal (from_option VString VUndefined (ApiError.correlationId e))
       ∧ Runtime.isApiError (Runtime.Plain r) = Normal (VBoolean true).
Proof.
  destruct (ApiError_to_value_reads e) as (Hc & Hm & Hd & Hf & Hi).
  pose proof (ApiError_to_value_shape e) as Hs.
  rewrite Runtime_createApiError_Plain.
  unfold ApiError.to_value in *.
  match type of Hs with ApiError_shape (VObject ?m) =>
    destruct (Get_createApiError m) as (r & Hr & Hk) end.
  exists (VObject r). split; [done|]. rewrite !Hk.
  repeat (split; [done|]).
  rewrite Runtime_isApiError_Plain. apply isApiError_true. by eapply ApiError_shape_ext.
Qed.

(** X12. What [createApiError] returns is rejected by [isApiError]
    whenever the partial does not hold a string [code] and a string
    [message] among its own enumerable properties, even when the
    partial itself is accepted. *)
Theorem createApiError_needs_own_enumerable
  (partial : Runtime.input) (m : gmap string value) :
  Runtime.own_enumerable partial = Normal m →
  (∀ s, m !! "code" ≠ Some (VString s)) ∨ (∀ s, m !! "message" ≠ Some (VString s)) →
  ∃ r, Runtime.createApiError partial = Normal r
       ∧ Runtime.isApiError (Runtime.Plain r) = Normal (VBoolean false).
Proof.
  intros Hm Hmiss. rewrite (Runtime_createApiError_copy partial m Hm).
  destruct (Get_createApiError m) as (r & Hr & Hk).
  exists (VObject r). split; [done|].
  rewrite Runtime_isApiError_Plain. apply isApiError_false.
  intros Hs. apply (ApiError_shape_ext _ (VObject m)) in Hs; [|by intros k; rewrite Hk].
  destruct Hs as ([s Hs]%has_string_lookup & [s' Hs']%has_string_lookup & _).
  destruct Hmiss as [H|H]; by eapply H.
Qed.

Lemma createApiError_needs_own_enumerable_witness :
  Runtime.isApiError error_with_code = Normal (VBoolean true)
  ∧ ∃ r, Runtime.createApiError error_with_code = Normal r
         ∧ Runtime.isApiError (Runtime.Plain r) = Normal (VBoolean false).
Proof.
  split; [by vm_compute|].
  apply (createApiError_needs_own_enumerable error_with_code
           (list_to_map [("code", VString "NOT_FOUND")])).
  - vm_compute. reflexivity.
  - right. intros s H. vm_compute in H. discriminate H.
Defined.

(** X13. [isApiError] judges an argument by its reads: for an
    argument whose properties are all data properties, the verdict
    is the verdict on the plain object of what the reads show, so an
    inherited or non-enumerable property counts like an own
    enumerable one. *)
Theorem isApiError_reads_hidden_properties (input : Runtime.input) :
  Runtime.data_only input →
  Runtime.isApiError input = isApiError (Runtime.view input).
Proof. apply Runtime_isApiError_view. Qed.

Lemma isApiError_reads_hidden_properties_witness :
  Runtime.isApiError error_with_code = isApiError (Runtime.view error_with_code)
  ∧ Runtime.isApiError error_with_code = Normal (VBoolean true).
Proof.
  split; [|by vm_compute].
  apply (isApiError_reads_hidden_properties error_with_code).
  exact error_with_code_data_only.
Defined.
